(** * kuma/wiki/views/list.py: the revision history view

    A shallow embedding of the [revisions] view of kuma's wiki and of the
    [get_previous] linker nested in it, with the properties of the
    revision-history projection stated over that embedding, and of the
    listing views by tag ([documents], [needs_review],
    [with_localization_tag]). *)

From Stdlib Require Import ZArith Ascii String.
From stdpp Require Import base list numbers strings sorting.

Set Warnings "-register-all".
Local Open Scope Z_scope.

(** ** Data model *)

(** A [Revision] model instance.  [created] is the creation timestamp
    (a point on a discrete time line), [pk] the primary key.  [based_on]
    is the foreign key to the revision of the original-language document
    a translation was made from.  [previous_revision] is the transient
    attribute that [get_previous] assigns; it is a reference to another
    object of the same result list, kept here as that object's position
    in the list, so that a link and the list entry it points to are one
    and the same object. *)
Inductive Revision : Type := mkRevision {
  pk : Z;
  created : Z;
  is_approved : bool;
  based_on : option Revision;
  previous_revision : option nat
}.

(** [current_revision.previous_revision = previous_revision] *)
Definition set_previous_revision (r : Revision) (j : nat) : Revision :=
  mkRevision (pk r) (created r) (is_approved r) (based_on r) (Some j).

(** A [Document]: only the fields the view reads.  [revisions] is the
    reverse relation [document.revisions], in storage order. *)
Inductive Document : Type := mkDocument {
  current_revision : option Revision;
  parent : option Document;
  revisions_of : list Revision
}.

(** ** The linker: [get_previous] (list.py, lines 152-165) *)

(** The inner [for previous_revision in revisions] loop for one
    [current_revision]; [j] is the position of the head of [candidates]
    in the whole list.  [Some j]: the assignment on line 163 happened with
    the object at position [j], followed by [break]; [None]: the loop ran
    to its end without assigning. *)
Fixpoint find_previous (current : Revision) (candidates : list Revision)
    (j : nat) : option nat :=
  match candidates with
  | [] => None
  | previous :: rest =>
      if negb (is_approved previous) || (pk current =? pk previous)
      then find_previous current rest (S j)
      else if created previous <? created current
           then Some j
           else find_previous current rest (S j)
  end.

(** One iteration of the outer loop, on the object at position [i] of the
    list in its current state. *)
Definition link_at (revisions : list Revision) (i : nat) : list Revision :=
  match revisions !! i with
  | None => revisions
  | Some current =>
      match find_previous current revisions 0 with
      | Some j => <[i := set_previous_revision current j]> revisions
      | None => revisions
      end
  end.

(** [get_previous(revisions)]: the outer loop visits the positions of the
    list in order, each iteration seeing the attributes assigned by the
    earlier ones. *)
Definition get_previous (revisions : list Revision) : list Revision :=
  foldl link_at revisions (seq 0 (length revisions)).

(** Following a [previous_revision] link inside a linked list. *)
Definition previous_of (linked : list Revision) (r : Revision)
    : option Revision :=
  match previous_revision r with
  | None => None
  | Some j => linked !! j
  end.

(** ** The query set (list.py, lines 175-176) *)

(** The order of [order_by('created', 'id')]. *)
Definition created_id_le (a b : Revision) : Prop :=
  created a < created b ∨ (created a = created b ∧ pk a ≤ pk b).

Global Instance created_id_le_dec a b : Decision (created_id_le a b).
Proof. unfold created_id_le. apply _. Defined.

Definition order_by_created_id (rows : list Revision) : list Revision :=
  merge_sort created_id_le rows.

(** A lazy query set: the rows it selects, in order, and the functions
    registered with [transform], which are run on the fetched rows each
    time (a slice of) the query set is evaluated. *)
Record QuerySet : Type := mkQuerySet {
  qs_rows : list Revision;
  qs_transforms : list (list Revision → list Revision)
}.

Definition qs_order_by_created_id (q : QuerySet) : QuerySet :=
  mkQuerySet (order_by_created_id (qs_rows q)) (qs_transforms q).

Definition qs_reverse (q : QuerySet) : QuerySet :=
  mkQuerySet (reverse (qs_rows q)) (qs_transforms q).

Definition qs_transform (f : list Revision → list Revision) (q : QuerySet)
    : QuerySet :=
  mkQuerySet (qs_rows q) (qs_transforms q ++ [f]).

Definition qs_exists (q : QuerySet) : bool :=
  match qs_rows q with [] => false | _ => true end.

(** [list(queryset)] *)
Definition qs_list (q : QuerySet) : list Revision :=
  foldl (λ rows f, f rows) (qs_rows q) (qs_transforms q).

(** [document.revisions ... .order_by('created', 'id') ... .reverse()
    .transform(get_previous)]; [defer] and [select_related] only tune the
    SQL that is sent. *)
Definition all_revisions_of (document : Document) : QuerySet :=
  qs_transform get_previous
    (qs_reverse
       (qs_order_by_created_id (mkQuerySet (revisions_of document) []))).

(** Scenario A of the specification. *)
Definition R1 : Revision := mkRevision 1 1 true None None.
Definition R2 : Revision := mkRevision 2 2 false None None.
Definition R3 : Revision := mkRevision 3 3 true None None.

(** ** Request values *)

(** What [request.GET.get('limit', 10)] evaluates to: the integer default
    when the parameter is absent, the text of the parameter otherwise. *)
Inductive PyValue : Type :=
  | PyInt (n : Z)
  | PyStr (s : string).

Record Request : Type := mkRequest {
  is_authenticated : bool;      (* request.user.is_authenticated() *)
  GET_limit : option string;    (* request.GET['limit'], if present *)
  GET_page : Z                  (* the page index asked for, read by paginate *)
}.

Definition GET_get_limit (request : Request) : PyValue :=
  match GET_limit request with
  | None => PyInt 10
  | Some s => PyStr s
  end.

(** [per_page == 'all'] *)
Definition is_all (per_page : PyValue) : bool :=
  match per_page with
  | PyStr s => bool_decide (s = "all"%string)
  | PyInt _ => false
  end.

(** *** Python's [int] on text

    Surrounding white space is dropped, one sign is allowed, and what
    remains must be a non-empty run of decimal digits; anything else is a
    [ValueError] ([None]).  This is the decimal syntax of Python 2.7, on
    which this view runs (no digit separators).  Only ASCII text is
    covered: on text with other characters [int] also accepts the decimal
    digits and the white space of other scripts, which this function
    refuses, so [Some n] is always what [int] returns, while [None] means
    [ValueError] for ASCII text only. *)
Definition is_space (c : ascii) : bool :=
  let n := nat_of_ascii c in
  ((9 <=? n)%nat && (n <=? 13)%nat) || ((28 <=? n)%nat && (n <=? 32)%nat).

Definition digit_of (c : ascii) : option Z :=
  let n := nat_of_ascii c in
  if ((48 <=? n)%nat && (n <=? 57)%nat) then Some (Z.of_nat n - 48) else None.

Fixpoint lstrip (cs : list ascii) : list ascii :=
  match cs with
  | c :: rest => if is_space c then lstrip rest else cs
  | [] => []
  end.

Definition strip (cs : list ascii) : list ascii :=
  reverse (lstrip (reverse (lstrip cs))).

Fixpoint digits_value (acc : Z) (cs : list ascii) : option Z :=
  match cs with
  | [] => Some acc
  | c :: rest =>
      match digit_of c with
      | Some d => digits_value (10 * acc + d) rest
      | None => None
      end
  end.

Definition unsigned_value (cs : list ascii) : option Z :=
  match cs with
  | [] => None
  | _ => digits_value 0 cs
  end.

Definition py_int_str (s : string) : option Z :=
  match strip (list_ascii_of_string s) with
  | "-"%char :: cs => Z.opp <$> unsigned_value cs
  | "+"%char :: cs => unsigned_value cs
  | cs => unsigned_value cs
  end.

(** [int(per_page)]; [None] stands for [ValueError]. *)
Definition py_int (v : PyValue) : option Z :=
  match v with
  | PyInt n => Some n
  | PyStr s => py_int_str s
  end.

(** ** Pages and responses *)

(** The page object [paginate] returns: the slice of the query set (still
    lazy) and the answer of [has_next()]. *)
Record Page : Type := mkPage {
  object_list : QuerySet;
  number : Z;
  has_next : bool
}.

(** Truth value of [page] in [not page]: [None] is false, and a page is a
    sequence, false exactly when it holds no object. *)
Definition page_truth (page : option Page) : bool :=
  match page with
  | None => false
  | Some p => negb (bool_decide (length (qs_list (object_list p)) = 0%nat))
  end.

(** [not page or not page.has_next()] *)
Definition no_next_page (page : option Page) : bool :=
  negb (page_truth page) ||
  match page with
  | Some p => negb (has_next p)
  | None => true
  end.

(** How a call of the view ends. *)
Inductive Response : Type :=
  | Http404                                   (* raise Http404 *)
  | Render403 (reason : string)               (* '403.html', status=403 *)
  | RenderRevisions (revisions : list Revision) (page : option Page)
                                              (* 'wiki/list/revisions.html' *)
  | IndexError                                (* all_revisions[-1] on [] *)
  | PaginateError.                            (* paginate gave no page *)

Definition revision_data (r : Response) : list Revision :=
  match r with
  | RenderRevisions revisions _ => revisions
  | _ => []
  end.

(** Straight-line code with early exits: a step either goes on with a
    value or ends the call with a response. *)
Inductive Step (A : Type) : Type :=
  | Go (a : A)
  | Exit (r : Response).
Arguments Go {A} a.
Arguments Exit {A} r.

Global Instance step_bind : MBind Step := λ A B k s,
  match s with
  | Go a => k a
  | Exit r => Exit r
  end.

Definition finish (s : Step Response) : Response :=
  match s with
  | Go r => r
  | Exit r => r
  end.

(** ** The view: [revisions] (list.py, lines 140-207) *)

Section View.
(** [..constants.DOCUMENTS_PER_PAGE] *)
Variable DOCUMENTS_PER_PAGE : Z.
(** [kuma.core.utils.paginate]; [None] when the call yields no page. *)
Variable paginate : Request → QuerySet → Z → option Page.

(** Lines 144-150; [found] is the outcome of the look-up that
    [get_object_or_404] performs for the locale and slug. *)
Definition get_document (found : option Document) : Step Document :=
  match found with
  | None => Exit Http404
  | Some document =>
      match current_revision document with
      | None => Exit Http404
      | Some _ => Go document
      end
  end.

(** Lines 167-171. *)
Definition login_gate (request : Request) : Step PyValue :=
  let per_page := GET_get_limit request in
  if negb (is_authenticated request) && is_all per_page
  then Exit (Render403 "revisions_login_required")
  else Go per_page.

(** Lines 175-179. *)
Definition fetch (document : Document) : Step QuerySet :=
  let all_revisions := all_revisions_of document in
  if negb (qs_exists all_revisions) then Exit Http404 else Go all_revisions.

(** Lines 185-188: [int(per_page)], with [DOCUMENTS_PER_PAGE] on
    [ValueError]. *)
Definition page_size (per_page : PyValue) : Z :=
  match py_int per_page with
  | Some n => n
  | None => DOCUMENTS_PER_PAGE
  end.

(** Lines 181-191: the page (if any) and the list [all_revisions]. *)
Definition window (request : Request) (per_page : PyValue)
    (all_revisions : QuerySet) : Step (option Page * list Revision) :=
  if is_all per_page then Go (None, qs_list all_revisions)
  else
    match paginate request all_revisions (page_size per_page) with
    | None => Exit PaginateError
    | Some page => Go (Some page, qs_list (object_list page))
    end.

(** The condition on line 195. *)
Definition appends_parent (document : Document) (page : option Page)
    : bool :=
  no_next_page page &&
  match parent document with Some _ => true | None => false end.

(** Lines 195-200. *)
Definition attach_parent (document : Document) (page : option Page)
    (all_revisions : list Revision) : Step (list Revision) :=
  if appends_parent document page then
    match last all_revisions with
    | None => Exit IndexError
    | Some first =>
        match based_on first with
        | Some first_rev_based_on => Go (all_revisions ++ [first_rev_based_on])
        | None => Go all_revisions
        end
    end
  else Go all_revisions.

(** Everything up to line 191: the state in which line 195 is reached. *)
Definition before_attach (request : Request) (found : option Document)
    : Step (Document * option Page * list Revision) :=
  document ← get_document found;
  per_page ← login_gate request;
  all_revisions ← fetch document;
  '(page, batch) ← window request per_page all_revisions;
  Go (document, page, batch).

Definition revisions (request : Request) (found : option Document)
    : Response :=
  finish ('(document, page, batch) ← before_attach request found;
          all_revisions ← attach_parent document page batch;
          Go (RenderRevisions all_revisions page)).
End View.

(** Modelled from the spec: [kuma.core.utils.paginate] is not among the
    sources.  Section 4.2 asks for standard fixed-size pagination (page 1
    is the first [size] items, and so on) together with a has-next
    indicator, for a positive page size.  The page is a slice of the query
    set and stays lazy.  Where the specification is silent (a size that is
    not positive, an index that names no page) no page is given. *)
Definition paginate_spec (request : Request) (q : QuerySet) (per_page : Z)
    : option Page :=
  let n := GET_page request in
  let count := Z.of_nat (length (qs_rows q)) in
  if (0 <? per_page) && (1 <=? n) && ((n - 1) * per_page <? count) then
    Some (mkPage
            (mkQuerySet
               (take (Z.to_nat per_page)
                  (drop (Z.to_nat ((n - 1) * per_page)) (qs_rows q)))
               (qs_transforms q))
            n
            (n * per_page <? count))
  else None.

(** Scenario B of the specification: three revisions, two per page. *)
Definition F1 : Revision := mkRevision 90 0 true None None.
Definition R1' : Revision := mkRevision 1 1 true (Some F1) None.
Definition docP : Document := mkDocument (Some F1) None [F1].
Definition docB : Document := mkDocument (Some R3) (Some docP) [R1'; R2; R3].

(** ** Notions used in the statements *)

(** The test that the inner loop applies to a pair (lines 158-162): the
    candidate is approved, is another revision, and was created strictly
    earlier. *)
Definition is_candidate (current previous : Revision) : bool :=
  is_approved previous && negb (pk current =? pk previous)
  && (created previous <? created current).

(** What the linker reads of a revision and never writes. *)
Definition row (r : Revision) : Z * Z * bool * option Revision :=
  (pk r, created r, is_approved r, based_on r).

(** The outcome of the outer loop's iteration for [r], in a list whose
    rows are those of [revisions]. *)
Definition relink (revisions : list Revision) (r : Revision) : Revision :=
  match find_previous r revisions 0 with
  | Some j => set_previous_revision r j
  | None => r
  end.

(** What a link must satisfy. *)
Definition approved_predecessor (r p : Revision) : Prop :=
  is_approved p = true ∧ pk p ≠ pk r ∧ created p < created r.

(** The contract of section 4.1 in the specification's words: the first
    revision, scanning in ascending creation order, that is approved, is
    another revision and was created earlier. *)
Definition spec_previous_revision (revs : list Revision) (r : Revision)
    : option Revision :=
  snd <$> list_find (λ p, is_candidate r p = true) (order_by_created_id revs).

Definition R2_approved : Revision := mkRevision 2 2 true None None.

(** Lines 190-207 once the page size is known: the response built from
    what [paginate] returns for that size. *)
Definition paged_response (paginate : Request → QuerySet → Z → option Page)
    (request : Request) (document : Document) (size : Z) : Response :=
  match paginate request (all_revisions_of document) size with
  | None => PaginateError
  | Some page =>
      finish (all_revisions ← attach_parent document (Some page)
                                (qs_list (object_list page));
              Go (RenderRevisions all_revisions (Some page)))
  end.

(** "The current page is the last page or the all mode was used". *)
Definition last_page_or_all (page : option Page) : bool :=
  match page with
  | None => true
  | Some p => negb (has_next p)
  end.

Definition has_parent (document : Document) : bool :=
  match parent document with Some _ => true | None => false end.

(** Following [n] links in a linked list, starting from [r]. *)
Fixpoint nth_previous (linked : list Revision) (n : nat) (r : Revision)
    : option Revision :=
  match n with
  | O => Some r
  | S n' =>
      match previous_of linked r with
      | Some p => nth_previous linked n' p
      | None => None
      end
  end.

(** ** The listing views (list.py, lines 14-86) *)

(** A tag row, the shape shared by [DocumentTag], [ReviewTag] and
    [LocalizationTag]. *)
Record Tag : Type := mkTag {
  tag_id : Z;
  name : string
}.

Record ListRequest : Type := mkListRequest {
  LANGUAGE_CODE : string;       (* request.LANGUAGE_CODE *)
  GET_list_page : Z             (* the page index asked for, read by paginate *)
}.

(** How a call of a listing view ends; [P] is what [paginate] returns for
    a list of documents. *)
Inductive ListResponse (P : Type) : Type :=
  | ListHttp404                               (* raise Http404 *)
  | MultipleObjectsReturned                   (* raised by QuerySet.get *)
  | RenderDocuments (documents : P) (count : nat) (tag : option string)
                                              (* 'wiki/list/documents.html' *)
  | RenderTagged (template : string) (documents : P) (count : nat)
      (tag : option Tag) (tag_name : option string).
Arguments ListHttp404 {P}.
Arguments MultipleObjectsReturned {P}.
Arguments RenderDocuments {P} documents count tag.
Arguments RenderTagged {P} template documents count tag tag_name.

(** The [tag] argument where its truth value is tested ([if tag:],
    [tag and ...]): [None] and the empty text are false. *)
Definition tag_given (tag : option string) : option string :=
  match tag with
  | Some s => if bool_decide (s = EmptyString) then None else Some s
  | None => None
  end.

Section ListViews.
Context {PageOfDocuments : Type}.
(** [..constants.DOCUMENTS_PER_PAGE] *)
Variable DOCUMENTS_PER_PAGE : Z.
(** [kuma.core.utils.paginate], on a list of documents. *)
Variable paginate_documents : ListRequest → list Document → Z → PageOfDocuments.
(** How the database compares for [name__iexact=] and for [name=]; both
    depend on the collation of the column. *)
Variable iexact : string → string → bool.
Variable exact : string → string → bool.
(** [unicode.lower] *)
Variable lower : string → string.
(** The manager methods [Document.objects.filter_for_list],
    [filter_for_review] and [filter_with_localization_tag], by locale and
    tag. *)
Variable filter_for_list : string → option Tag → list Document.
Variable filter_for_review : string → option Tag → list Document.
Variable filter_with_localization_tag : string → option Tag → list Document.

(** [get_list_or_404(DocumentTag, name__iexact=tag)]; [None] stands for
    [Http404]. *)
Definition get_list_or_404 (objects : list Tag) (tag : string)
    : option (list Tag) :=
  match filter (λ t, iexact (name t) tag = true) objects with
  | [] => None
  | matching_tags => Some matching_tags
  end.

(** Lines 25-28: the first tag whose lowered name is the lowered [tag]. *)
Fixpoint first_matching_tag (matching_tags : list Tag) (tag : string)
    : option Tag :=
  match matching_tags with
  | [] => None
  | matching_tag :: rest =>
      if bool_decide (lower (name matching_tag) = lower tag)
      then Some matching_tag
      else first_matching_tag rest tag
  end.

(** Lines 29-37. *)
Definition render_documents (request : ListRequest) (tag : option string)
    (tag_obj : option Tag) : ListResponse PageOfDocuments :=
  let docs := filter_for_list (LANGUAGE_CODE request) tag_obj in
  RenderDocuments (paginate_documents request docs DOCUMENTS_PER_PAGE)
    (length docs) tag.

(** [documents(request, tag)], over the rows of [DocumentTag]. *)
Definition documents (DocumentTag_objects : list Tag)
    (request : ListRequest) (tag : option string)
    : ListResponse PageOfDocuments :=
  match tag_given tag with
  | None => render_documents request tag None
  | Some s =>
      match get_list_or_404 DocumentTag_objects s with
      | None => ListHttp404
      | Some matching_tags =>
          render_documents request tag (first_matching_tag matching_tags s)
      end
  end.

(** [get_object_or_404(klass, name=tag)]: [QuerySet.get] wants exactly one
    row. *)
Definition get_object_or_404 (objects : list Tag) (tag : string)
    : ListResponse PageOfDocuments + Tag :=
  match filter (λ t, exact (name t) tag = true) objects with
  | [] => inl ListHttp404
  | [t] => inr t
  | _ => inl MultipleObjectsReturned
  end.

(** [needs_review(request, tag)], over the rows of [ReviewTag].  In
    [tag and get_object_or_404(...) or None] a false [tag] gives [None]
    without a query, and a model instance is true, so [... or None] keeps
    it. *)
Definition needs_review (ReviewTag_objects : list Tag)
    (request : ListRequest) (tag : option string)
    : ListResponse PageOfDocuments :=
  let render tag_obj :=
    let docs := filter_for_review (LANGUAGE_CODE request) tag_obj in
    RenderTagged "wiki/list/needs_review.html"
      (paginate_documents request docs DOCUMENTS_PER_PAGE)
      (length docs) tag_obj tag in
  match tag_given tag with
  | None => render None
  | Some s =>
      match get_object_or_404 ReviewTag_objects s with
      | inl raised => raised
      | inr tag_obj => render (Some tag_obj)
      end
  end.

(** [with_localization_tag(request, tag)], over the rows of
    [LocalizationTag]. *)
Definition with_localization_tag (LocalizationTag_objects : list Tag)
    (request : ListRequest) (tag : option string)
    : ListResponse PageOfDocuments :=
  let render tag_obj :=
    let docs :=
      filter_with_localization_tag (LANGUAGE_CODE request) tag_obj in
    RenderTagged "wiki/list/with_localization_tags.html"
      (paginate_documents request docs DOCUMENTS_PER_PAGE)
      (length docs) tag_obj tag in
  match tag_given tag with
  | None => render None
  | Some s =>
      match get_object_or_404 LocalizationTag_objects s with
      | inl raised => raised
      | inr tag_obj => render (Some tag_obj)
      end
  end.
End ListViews.

(** Sample comparisons for the examples: lower case of ASCII letters, and
    a database comparison that ignores case and trailing spaces. *)
Definition ascii_lower_char (c : ascii) : ascii :=
  let n := nat_of_ascii c in
  if ((65 <=? n)%nat && (n <=? 90)%nat) then ascii_of_nat (n + 32) else c.

Definition ascii_lower (s : string) : string :=
  string_of_list_ascii (ascii_lower_char <$> list_ascii_of_string s).

Definition rstrip_spaces (s : string) : list ascii :=
  reverse (lstrip (reverse (list_ascii_of_string s))).

Definition pad_space_iexact (a b : string) : bool :=
  bool_decide (rstrip_spaces (ascii_lower a) = rstrip_spaces (ascii_lower b)).

Definition pad_space_exact (a b : string) : bool :=
  bool_decide (rstrip_spaces a = rstrip_spaces b).

(** * Properties *)

(** ** Evaluations *)

Example scenario_A_rows :
  qs_rows (all_revisions_of (mkDocument (Some R3) None [R2; R3; R1]))
  = [R3; R2; R1].
Proof. vm_compute. reflexivity. Qed.

Example scenario_A_linked :
  qs_list (all_revisions_of (mkDocument (Some R3) None [R2; R3; R1]))
  = [set_previous_revision R3 2; set_previous_revision R2 2; R1].
Proof. vm_compute. reflexivity. Qed.

Example py_int_25 : py_int (PyStr " 25 ") = Some 25.
Proof. reflexivity. Qed.
Example py_int_minus3 : py_int (PyStr "-3") = Some (-3).
Proof. reflexivity. Qed.
Example py_int_zero : py_int (PyStr "0") = Some 0.
Proof. reflexivity. Qed.
Example py_int_abc : py_int (PyStr "abc") = None.
Proof. reflexivity. Qed.
Example py_int_empty : py_int (PyStr "") = None.
Proof. reflexivity. Qed.
Example py_int_all : py_int (PyStr "all") = None.
Proof. reflexivity. Qed.
Example py_int_float : py_int (PyStr "2.5") = None.
Proof. reflexivity. Qed.

(** ** The linker *)

Lemma find_previous_cons current previous rest j :
  find_previous current (previous :: rest) j =
  if is_candidate current previous then Some j
  else find_previous current rest (S j).
Proof.
  unfold is_candidate. simpl.
  destruct (is_approved previous), (pk current =? pk previous),
    (created previous <? created current); reflexivity.
Qed.

Lemma is_candidate_ext c c' p p' :
  row c = row c' → row p = row p' → is_candidate c p = is_candidate c' p'.
Proof.
  unfold row, is_candidate. intros Hc Hp.
  injection Hc as -> -> _ _. injection Hp as -> -> -> _. reflexivity.
Qed.

Lemma find_previous_ext c c' l l' j :
  row c = row c' → row <$> l = row <$> l' →
  find_previous c l j = find_previous c' l' j.
Proof.
  intros Hc. revert l' j.
  induction l as [|p l IH]; intros [|p' l'] j Hl; try discriminate Hl.
  - reflexivity.
  - rewrite !fmap_cons in Hl.
    assert (row p = row p') as Hp
      by (apply (f_equal head) in Hl; simpl in Hl; congruence).
    apply (f_equal tail) in Hl. simpl in Hl.
    rewrite !find_previous_cons, (is_candidate_ext c c' p p' Hc Hp).
    destruct (is_candidate c' p'); [reflexivity | by apply IH].
Qed.

Lemma find_previous_Some current l j0 j :
  find_previous current l j0 = Some j ↔
  ∃ k p, j = (j0 + k)%nat ∧ l !! k = Some p ∧ is_candidate current p = true ∧
         ∀ k' q, (k' < k)%nat → l !! k' = Some q →
                 is_candidate current q = false.
Proof.
  revert j0. induction l as [|p l IH]; intros j0.
  - simpl. split; [discriminate | intros (k & q & _ & Hk & _); discriminate].
  - rewrite find_previous_cons.
    destruct (is_candidate current p) eqn:Hp.
    + split.
      * intros [= <-]. exists 0%nat, p.
        repeat split; [lia | done | lia].
      * intros (k & q & -> & Hk & Hq & Hfirst).
        destruct k as [|k]; [f_equal; lia |].
        specialize (Hfirst 0%nat p ltac:(lia) eq_refl). congruence.
    + rewrite IH. split.
      * intros (k & q & -> & Hk & Hq & Hfirst). exists (S k), q.
        repeat split; [lia | done | done |].
        intros [|k'] q' Hlt Hq'; simpl in Hq'; [congruence |].
        apply (Hfirst k'); [lia | done].
      * intros (k & q & -> & Hk & Hq & Hfirst).
        destruct k as [|k]; simpl in Hk; [congruence |].
        exists k, q. repeat split; [lia | done | done |].
        intros k' q' Hlt Hq'. apply (Hfirst (S k')); [lia | done].
Qed.

Lemma find_previous_None current l j0 :
  find_previous current l j0 = None ↔
  ∀ q, q ∈ l → is_candidate current q = false.
Proof.
  revert j0. induction l as [|p l IH]; intros j0.
  - simpl. split; [intros _ q Hq; by apply elem_of_nil in Hq | done].
  - rewrite find_previous_cons.
    destruct (is_candidate current p) eqn:Hp.
    + split; [discriminate |]. intros H.
      specialize (H p ltac:(left)). congruence.
    + rewrite IH. split.
      * intros H q [-> | Hq]%elem_of_cons; auto.
      * intros H q Hq. apply H. by right.
Qed.

Lemma row_relink l r : row (relink l r) = row r.
Proof. unfold relink. by destruct (find_previous r l 0). Qed.

Lemma rows_relink (l k : list Revision) :
  row <$> (relink l <$> k) = row <$> k.
Proof.
  rewrite <- list_fmap_compose. apply list_fmap_ext.
  intros i r _. apply row_relink.
Qed.

(** The loop, started at position [i] on a list whose first [i] objects
    have been visited, ends with every object visited. *)
Lemma foldl_link_at (l : list Revision) n i :
  (i + n = length l)%nat →
  foldl link_at ((relink l <$> take i l) ++ drop i l) (seq i n)
  = relink l <$> l.
Proof.
  revert i. induction n as [|n IH]; intros i Hlen.
  - simpl. rewrite take_ge, drop_ge by lia. by rewrite app_nil_r.
  - destruct (lookup_lt_is_Some_2 l i ltac:(lia)) as [cur Hcur].
    simpl. rewrite <- (IH (S i)) by lia. f_equal.
    rewrite (take_S_r l i cur Hcur), (drop_S l cur i Hcur), fmap_app.
    rewrite <- app_assoc. simpl.
    set (done := relink l <$> take i l).
    assert (length done = i) as Hdone.
    { unfold done. rewrite length_fmap, length_take. lia. }
    unfold link_at.
    assert ((done ++ cur :: drop (S i) l) !! i = Some cur) as ->.
    { rewrite lookup_app_r by lia. by rewrite Hdone, Nat.sub_diag. }
    assert (find_previous cur (done ++ cur :: drop (S i) l) 0
            = find_previous cur l 0) as ->.
    { apply find_previous_ext; [done |].
      rewrite fmap_app. unfold done. rewrite rows_relink.
      rewrite <- fmap_app. f_equal.
      rewrite <- (drop_S l cur i Hcur). apply take_drop. }
    unfold relink.
    destruct (find_previous cur l 0) as [j|]; [| done].
    rewrite insert_app_r_alt by lia.
    by rewrite Hdone, Nat.sub_diag.
Qed.

(** Closed form of the linker: every object is relinked against the rows
    of the list, whatever the earlier iterations assigned. *)
Lemma get_previous_relink (l : list Revision) :
  get_previous l = relink l <$> l.
Proof.
  unfold get_previous.
  rewrite <- (foldl_link_at l (length l) 0 eq_refl).
  by rewrite take_0, drop_0.
Qed.

Lemma length_get_previous l : length (get_previous l) = length l.
Proof. by rewrite get_previous_relink, length_fmap. Qed.

Lemma rows_get_previous l : row <$> get_previous l = row <$> l.
Proof. rewrite get_previous_relink. apply rows_relink. Qed.

Lemma relink_relink (l l' : list Revision) r :
  row <$> l' = row <$> l → relink l' (relink l r) = relink l r.
Proof.
  intros Hl. unfold relink at 1.
  rewrite (find_previous_ext (relink l r) r l' l 0 (row_relink l r) Hl).
  unfold relink.
  by destruct (find_previous r l 0) as [j|].
Qed.

(** *** The order of the rows handed to the linker *)

Global Instance created_id_le_refl : Reflexive created_id_le.
Proof. intros a. unfold created_id_le. lia. Qed.

Global Instance created_id_le_trans : Transitive created_id_le.
Proof. intros a b c. unfold created_id_le. lia. Qed.

Global Instance created_id_le_total : Total created_id_le.
Proof. intros a b. unfold created_id_le. lia. Qed.

Lemma StronglySorted_lookup_le {A} (R : relation A) `{!Reflexive R}
    (l : list A) i j x y :
  StronglySorted R l → (i ≤ j)%nat →
  l !! i = Some x → l !! j = Some y → R x y.
Proof.
  intros Hl. revert i j.
  induction Hl as [|a l Hl IH Ha]; intros i j Hij Hi Hj; [done |].
  destruct i as [|i], j as [|j]; simpl in *; try lia.
  - by simplify_eq.
  - simplify_eq. rewrite Forall_forall in Ha.
    apply Ha. by eapply list_elem_of_lookup_2.
  - apply (IH i j); [lia | done | done].
Qed.

Lemma rows_all_revisions document :
  qs_rows (all_revisions_of document)
  = reverse (order_by_created_id (revisions_of document)).
Proof. reflexivity. Qed.

Lemma list_all_revisions document :
  qs_list (all_revisions_of document)
  = get_previous (qs_rows (all_revisions_of document)).
Proof. reflexivity. Qed.

(** The rows of the query set come latest first. *)
Lemma rows_descending document :
  StronglySorted (flip created_id_le) (qs_rows (all_revisions_of document)).
Proof.
  rewrite rows_all_revisions.
  apply Sorted_StronglySorted; [apply _ |].
  apply Sorted_reverse, Sorted_merge_sort. apply _.
Qed.

Lemma rows_Permutation document :
  qs_rows (all_revisions_of document) ≡ₚ revisions_of document.
Proof.
  rewrite rows_all_revisions, reverse_Permutation.
  apply merge_sort_Permutation.
Qed.

Lemma is_candidate_true r p :
  is_candidate r p = true ↔ approved_predecessor r p.
Proof.
  unfold is_candidate, approved_predecessor.
  rewrite !andb_true_iff, negb_true_iff, Z.eqb_neq, Z.ltb_lt.
  split; intros H; repeat split; try apply H; intros E; by apply H.
Qed.

Lemma lookup_rows (l l' : list Revision) i r :
  row <$> l = row <$> l' → l !! i = Some r →
  ∃ r', l' !! i = Some r' ∧ row r = row r'.
Proof.
  intros Hrows Hr.
  assert ((row <$> l') !! i = Some (row r)) as Hi
    by (rewrite <- Hrows, list_lookup_fmap, Hr; done).
  rewrite list_lookup_fmap in Hi.
  destruct (l' !! i) as [r'|]; simpl in Hi; [| discriminate].
  exists r'. split; [done | congruence].
Qed.

(** *** Theorems on the linker *)

(** C1, as stated, fails: with three approved revisions created at 1, 2
    and 3, the revision created at 3 is linked to the one created at 2,
    whereas an ascending scan would pick the one created at 1. *)
Lemma ascending_scan_counterexample :
  ¬ (∀ (document : Document) (r : Revision),
       r ∈ qs_list (all_revisions_of document) →
       pk <$> previous_of (qs_list (all_revisions_of document)) r
       = pk <$> spec_previous_revision (revisions_of document) r).
Proof.
  intros H.
  specialize (H (mkDocument (Some R3) None [R1; R2_approved; R3])
                (set_previous_revision R3 1)).
  assert (Some 2 = Some 1) as Habs; [| discriminate Habs].
  apply H. apply list_elem_of_lookup. by exists 0%nat.
Qed.

(** C1, amended: the linker receives the rows latest first, and for the
    revision at every position it sets [previous_revision] to the first
    approved, different, strictly earlier revision in that descending
    order, which is the latest such revision in [(created, id)] order; if
    there is none, [previous_revision] stays as it was. *)
Theorem linker_nearest_approved_predecessor
    (document : Document) (i : nat) (r0 : Revision) :
  let rows := qs_rows (all_revisions_of document) in
  let linked := qs_list (all_revisions_of document) in
  rows !! i = Some r0 →
  ∃ r, linked !! i = Some r ∧ row r = row r0 ∧
    ((∃ j p, previous_revision r = Some j ∧ linked !! j = Some p ∧
             approved_predecessor r p ∧
             ∀ k q, linked !! k = Some q → approved_predecessor r q →
                    (j ≤ k)%nat ∧ created_id_le q p)
     ∨ (previous_revision r = previous_revision r0 ∧
        ∀ q, q ∈ linked → ¬ approved_predecessor r q)).
Proof.
  intros rows linked Hr0.
  assert (linked = relink rows <$> rows) as Hlinked
    by (unfold linked; rewrite list_all_revisions; apply get_previous_relink).
  assert (row <$> linked = row <$> rows) as Hrows
    by (rewrite Hlinked; apply rows_relink).
  exists (relink rows r0). split; [| split].
  - by rewrite Hlinked, list_lookup_fmap, Hr0.
  - apply row_relink.
  - unfold relink. destruct (find_previous r0 rows 0) as [j|] eqn:Hfind.
    + left. apply find_previous_Some in Hfind
        as (k & p & -> & Hp & Hcand & Hfirst). simpl in *.
      destruct (lookup_rows rows linked k p (eq_sym Hrows) Hp)
        as (p' & Hp' & Hpp').
      exists k, p'. split; [done |]. split; [done |]. split.
      * apply is_candidate_true. change (is_candidate r0 p' = true).
        by rewrite <- (is_candidate_ext r0 r0 p p' eq_refl Hpp').
      * intros k' q' Hq' Hcand'.
        destruct (lookup_rows linked rows k' q' Hrows Hq') as (q & Hq & Hqq').
        apply is_candidate_true in Hcand'.
        change (is_candidate r0 q' = true) in Hcand'.
        rewrite (is_candidate_ext r0 r0 q' q eq_refl Hqq') in Hcand'.
        assert (k ≤ k')%nat as Hle.
        { destruct (decide (k ≤ k')%nat) as [|Hn]; [done |].
          specialize (Hfirst k' q ltac:(lia) Hq). congruence. }
        split; [done |].
        pose proof (StronglySorted_lookup_le (flip created_id_le) rows
                      k k' p q (rows_descending document) Hle Hp Hq) as Hpq.
        unfold flip, created_id_le, row in *. simplify_eq. lia.
    + right. split; [done |]. intros q' Hq'.
      apply list_elem_of_lookup in Hq' as [k' Hq'].
      destruct (lookup_rows linked rows k' q' Hrows Hq') as (q & Hq & Hqq').
      rewrite <- is_candidate_true.
      rewrite (is_candidate_ext r0 r0 q' q eq_refl Hqq').
      rewrite find_previous_None in Hfind.
      rewrite (Hfind q); [done |]. by eapply list_elem_of_lookup_2.
Qed.

Lemma linker_nearest_approved_predecessor_witness :
  ∃ r, qs_list (all_revisions_of
                  (mkDocument (Some R3) None [R1; R2_approved; R3])) !! 0%nat
       = Some r ∧ previous_revision r = Some 1%nat.
Proof.
  destruct (linker_nearest_approved_predecessor
              (mkDocument (Some R3) None [R1; R2_approved; R3]) 0 R3
              eq_refl) as (r & Hr & _).
  exists r. split; [exact Hr |].
  vm_compute in Hr. injection Hr as <-. reflexivity.
Defined.

(** C2: every link the linker sets on freshly fetched revisions points to
    an approved revision, other than the revision itself, created strictly
    earlier; in particular two revisions created at the same instant are
    never linked to each other. *)
Theorem previous_revision_invariant
    (revs : list Revision) (i j : nat) (r : Revision) :
  Forall (λ r0, previous_revision r0 = None) revs →
  get_previous revs !! i = Some r →
  previous_revision r = Some j →
  ∃ p, get_previous revs !! j = Some p ∧
       is_approved p = true ∧ pk p ≠ pk r ∧ j ≠ i ∧
       created p < created r ∧ created p ≠ created r.
Proof.
  intros Hfresh Hr Hj.
  rewrite get_previous_relink in *.
  rewrite list_lookup_fmap in Hr.
  destruct (revs !! i) as [r0|] eqn:Hr0; simpl in Hr; [| discriminate].
  injection Hr as <-.
  unfold relink in Hj |- *.
  destruct (find_previous r0 revs 0) as [j'|] eqn:Hfind.
  - simpl in Hj. injection Hj as ->.
    apply find_previous_Some in Hfind as (k & p & -> & Hp & Hcand & _).
    simpl. apply is_candidate_true in Hcand as (Happ & Hpk & Hlt).
    exists (relink revs p). rewrite list_lookup_fmap, Hp.
    pose proof (row_relink revs p) as Hrow. unfold row in Hrow.
    injection Hrow as Hpk' Hcreated' Happ' _.
    rewrite Hpk', Hcreated', Happ'.
    split; [done |]. split; [done |]. split; [done |].
    split; [intros ->; congruence | lia].
  - rewrite Forall_forall in Hfresh.
    rewrite (Hfresh r0) in Hj; [discriminate |].
    by eapply list_elem_of_lookup_2.
Qed.

Lemma previous_revision_invariant_witness :
  ∃ p, get_previous [R3; R2; R1] !! 2%nat = Some p ∧
       is_approved p = true ∧ pk p ≠ 3 ∧ 2%nat ≠ 0%nat ∧
       created p < 3 ∧ created p ≠ 3.
Proof.
  apply (previous_revision_invariant [R3; R2; R1] 0 2
           (set_previous_revision R3 2)).
  - repeat constructor.
  - reflexivity.
  - reflexivity.
Defined.

(** C7: for the revision set R1 (t=1, approved), R2 (t=2, unapproved),
    R3 (t=3, approved), in whatever order it is stored or handed to the
    linker, R3 and R2 are linked to R1 and R1 is left without a link. *)
Theorem scenario_A_links (revs : list Revision) :
  revs ≡ₚ [R1; R2; R3] →
  (∀ r, r ∈ get_previous revs →
        previous_of (get_previous revs) r
        = if pk r =? 1 then None else Some R1) ∧
  (∀ cur par,
     qs_list (all_revisions_of (mkDocument cur par revs))
     = [set_previous_revision R3 2; set_previous_revision R2 2; R1]).
Proof.
  intros Hperm. symmetry in Hperm.
  apply permutations_Permutation in Hperm. vm_compute in Hperm.
  repeat (apply elem_of_cons in Hperm as [-> | Hperm]);
    try (by apply elem_of_nil in Hperm);
    (split;
     [ intros r Hr; vm_compute in Hr;
       repeat (apply elem_of_cons in Hr as [-> | Hr]);
       try (by apply elem_of_nil in Hr); reflexivity
     | intros cur par; vm_compute; reflexivity ]).
Qed.

Lemma scenario_A_links_witness :
  qs_list (all_revisions_of (mkDocument (Some R3) None [R2; R3; R1]))
  = [set_previous_revision R3 2; set_previous_revision R2 2; R1].
Proof.
  refine (proj2 (scenario_A_links [R2; R3; R1] _) (Some R3) None).
  apply Permutation_sym.
  apply perm_trans with [R2; R1; R3]; [apply perm_swap |].
  apply perm_skip, perm_swap.
Defined.

(** C8: the linker is idempotent: run on its own output it changes no
    annotation. *)
Theorem get_previous_idempotent (revs : list Revision) :
  get_previous (get_previous revs) = get_previous revs.
Proof.
  rewrite (get_previous_relink (get_previous revs)).
  rewrite (get_previous_relink revs) at 2 3.
  rewrite <- list_fmap_compose. apply list_fmap_ext.
  intros i r _. simpl. apply relink_relink, rows_get_previous.
Qed.

(** ** The view *)

Lemma qs_exists_all_revisions document :
  qs_exists (all_revisions_of document) = true ↔ revisions_of document ≠ [].
Proof.
  unfold qs_exists. pose proof (rows_Permutation document) as Hperm.
  destruct (qs_rows (all_revisions_of document)) as [|r rows] eqn:Hrows.
  - symmetry in Hperm. apply Permutation_nil_r in Hperm. by rewrite Hperm.
  - split; [| done]. intros _ Hnil. rewrite Hnil in Hperm.
    by apply Permutation_nil_r in Hperm.
Qed.

Lemma is_all_limit request :
  is_all (GET_get_limit request) = true ↔ GET_limit request = Some "all"%string.
Proof.
  unfold is_all, GET_get_limit.
  destruct (GET_limit request) as [s|]; [| done].
  rewrite bool_decide_eq_true. split; congruence.
Qed.

Lemma py_int_str_not_all s n : py_int_str s = Some n → s ≠ "all"%string.
Proof. intros Hs ->. discriminate Hs. Qed.

Section ViewFacts.
Variable DOCUMENTS_PER_PAGE : Z.
Variable paginate : Request → QuerySet → Z → option Page.

(** The state in which line 195 is reached, and the gates passed on the
    way. *)
Lemma before_attach_Go request found document page batch :
  before_attach DOCUMENTS_PER_PAGE paginate request found
  = Go (document, page, batch) ↔
  found = Some document ∧ is_Some (current_revision document) ∧
  negb (is_authenticated request) && is_all (GET_get_limit request) = false ∧
  revisions_of document ≠ [] ∧
  window DOCUMENTS_PER_PAGE paginate request (GET_get_limit request)
    (all_revisions_of document)
  = Go (page, batch).
Proof.
  unfold before_attach, get_document, login_gate, fetch. split.
  - destruct found as [d|]; simpl; [| discriminate].
    destruct (current_revision d) as [c|] eqn:Hc; simpl; [| discriminate].
    destruct (negb (is_authenticated request)
              && is_all (GET_get_limit request)) eqn:Hgate;
      simpl; [discriminate |].
    destruct (qs_exists (all_revisions_of d)) eqn:Hex; simpl; [| discriminate].
    destruct (window DOCUMENTS_PER_PAGE paginate request
                (GET_get_limit request) (all_revisions_of d))
      as [[pg b]|r] eqn:Hw; simpl; [| discriminate].
    intros [= <- <- <-]. apply qs_exists_all_revisions in Hex.
    rewrite Hc. eauto 10.
  - intros (-> & [c Hc] & Hgate & Hrevs & Hw).
    apply qs_exists_all_revisions in Hrevs.
    rewrite Hc. simpl. rewrite Hgate. simpl. rewrite Hrevs. simpl.
    rewrite Hw. done.
Qed.

(** Requests for a page: the view hands the page size to [paginate] and
    builds its response from the page. *)
Lemma revisions_paged request document :
  is_Some (current_revision document) →
  revisions_of document ≠ [] →
  is_all (GET_get_limit request) = false →
  revisions DOCUMENTS_PER_PAGE paginate request (Some document)
  = paged_response paginate request document
      (page_size DOCUMENTS_PER_PAGE (GET_get_limit request)).
Proof.
  intros [c Hc] Hrevs Hall.
  apply qs_exists_all_revisions in Hrevs.
  unfold revisions, before_attach, get_document,
    login_gate, fetch, window, paged_response.
  rewrite Hc. simpl. rewrite Hall, andb_false_r. simpl.
  rewrite Hrevs. simpl. rewrite Hall.
  by destruct (paginate request (all_revisions_of document)
                 (page_size DOCUMENTS_PER_PAGE (GET_get_limit request))).
Qed.

(** C4, amended: for a document that exists and has a current revision,
    a request for all revisions by a caller who is not logged in is
    answered with the 403 page and the reason code
    [revisions_login_required], whatever the revisions of the document,
    none included; no revision is returned. *)
Theorem all_mode_requires_login request document :
  is_Some (current_revision document) →
  is_authenticated request = false →
  GET_limit request = Some "all"%string →
  revisions DOCUMENTS_PER_PAGE paginate request (Some document) = Render403 "revisions_login_required"
  ∧ revision_data (revisions DOCUMENTS_PER_PAGE paginate request (Some document)) = [].
Proof.
  intros [c Hc] Hauth Hall. apply is_all_limit in Hall.
  unfold revisions, before_attach, get_document,
    login_gate.
  rewrite Hc, Hauth, Hall. done.
Qed.

(** C5, amended: for a document that exists, the view raises [Http404]
    exactly when the document has no current revision, or it has no
    revision at all and the request is not one for all revisions by a
    caller who is not logged in (that request is answered with 403
    first); no revision is returned then. *)
Theorem not_found_cases request document :
  (revisions DOCUMENTS_PER_PAGE paginate request (Some document) = Http404 ↔
   current_revision document = None ∨
   (revisions_of document = [] ∧
    ¬ (is_authenticated request = false ∧
       GET_limit request = Some "all"%string)))
  ∧ (revisions DOCUMENTS_PER_PAGE paginate request (Some document) = Http404 →
     revision_data (revisions DOCUMENTS_PER_PAGE paginate request (Some document)) = []).
Proof.
  split; [| by intros ->].
  rewrite <- is_all_limit.
  unfold revisions, before_attach, get_document,
    login_gate, fetch.
  destruct (current_revision document) as [c|]; simpl; [| naive_solver].
  destruct (is_authenticated request), (is_all (GET_get_limit request)) eqn:Hall;
    simpl; try (split; [done | intros [? | [_ []]]; done]).
  all: destruct (qs_exists (all_revisions_of document)) eqn:Hex; simpl;
    [ apply qs_exists_all_revisions in Hex
    | apply not_true_iff_false in Hex;
      rewrite qs_exists_all_revisions in Hex;
      apply dec_stable in Hex; split; [intros _; right | done];
      split; [done | intros [? ?]; done] ].
  all: unfold window; rewrite Hall;
    try (destruct (paginate request (all_revisions_of document)
                     (page_size DOCUMENTS_PER_PAGE (GET_get_limit request))) as [pg|]; simpl).
  all: unfold attach_parent;
    repeat match goal with
           | |- context [if ?b then _ else _] => destruct b
           | |- context [match ?o with Some _ => _ | None => _ end] =>
               destruct o
           end; simpl;
    (split; [done | intros [? | [? _]]; done]).
Qed.
(** C9: a [limit] that is the text of an integer is used as the page size
    as it is, positive or not: the view answers with whatever [paginate]
    returns for that integer. *)
Theorem page_size_verbatim request document s n :
  is_Some (current_revision document) →
  revisions_of document ≠ [] →
  GET_limit request = Some s →
  py_int_str s = Some n →
  page_size DOCUMENTS_PER_PAGE (GET_get_limit request) = n
  ∧ revisions DOCUMENTS_PER_PAGE paginate request (Some document)
    = paged_response paginate request document n.
Proof.
  intros Hc Hrevs Hlimit Hs.
  assert (is_all (GET_get_limit request) = false) as Hall.
  { apply not_true_iff_false. rewrite is_all_limit, Hlimit.
    intros [= ->]. by apply (py_int_str_not_all _ _ Hs). }
  assert (page_size DOCUMENTS_PER_PAGE (GET_get_limit request) = n) as Hsize.
  { unfold page_size, GET_get_limit. rewrite Hlimit. simpl. by rewrite Hs. }
  split; [done |]. rewrite <- Hsize. by apply revisions_paged.
Qed.
End ViewFacts.

Lemma all_mode_requires_login_witness :
  revisions 100 paginate_spec (mkRequest false (Some "all"%string) 1)
    (Some (mkDocument (Some R1) None []))
  = Render403 "revisions_login_required"
  ∧ revision_data
      (revisions 100 paginate_spec (mkRequest false (Some "all"%string) 1)
         (Some (mkDocument (Some R1) None []))) = [].
Proof.
  apply (all_mode_requires_login 100 paginate_spec
           (mkRequest false (Some "all"%string) 1)
           (mkDocument (Some R1) None [])).
  - by exists R1.
  - reflexivity.
  - reflexivity.
Defined.

(** C4, as stated, fails: the check of the current revision comes first,
    so a request for all revisions of a document without a current
    revision is answered with [Http404] also when the caller is not logged
    in. *)
Lemma all_mode_unauthenticated_counterexample :
  ¬ (∀ D P request found,
       is_authenticated request = false →
       GET_limit request = Some "all"%string →
       revisions D P request found = Render403 "revisions_login_required").
Proof.
  intros H.
  specialize (H 100 paginate_spec (mkRequest false (Some "all"%string) 1)
                (Some (mkDocument None None [R1])) eq_refl eq_refl).
  discriminate H.
Qed.

(** C5, as stated, fails: a request for all revisions by a caller who is
    not logged in is answered with 403 before the revisions are looked at,
    so an empty history does not give [Http404] there. *)
Lemma empty_history_counterexample :
  ¬ (∀ D P request document,
       revisions D P request (Some document) = Http404 ↔
       current_revision document = None ∨ revisions_of document = []).
Proof.
  intros H.
  destruct (H 100 paginate_spec (mkRequest false (Some "all"%string) 1)
              (mkDocument (Some R1) None [])) as [_ H404].
  specialize (H404 (or_intror eq_refl)). discriminate H404.
Qed.

(** C6: at [limit=0] no default page size is substituted: [int] accepts
    the text, no [ValueError] is raised, so the page size is 0 and the view
    calls [paginate] with 0 and answers with whatever comes of that call;
    the fallback on lines 185-188 covers only text that is not an
    integer. *)
Theorem limit_zero_reaches_paginate D P authenticated page_index :
  let request := mkRequest authenticated (Some "0"%string) page_index in
  let document := mkDocument (Some R3) None [R1; R2; R3] in
  py_int (GET_get_limit request) = Some 0
  ∧ page_size D (GET_get_limit request) = 0
  ∧ revisions D P request (Some document)
    = paged_response P request document 0.
Proof.
  intros request document.
  split; [reflexivity |]. split; [reflexivity |].
  change (revisions D P request (Some document)
          = paged_response P request document
              (page_size D (GET_get_limit request))).
  apply revisions_paged; [by exists R3 | discriminate | reflexivity].
Qed.

Lemma page_size_verbatim_witness :
  page_size 100 (GET_get_limit (mkRequest true (Some "-3"%string) 1)) = -3
  ∧ revisions 100 paginate_spec (mkRequest true (Some "-3"%string) 1)
      (Some (mkDocument (Some R3) None [R1; R2; R3]))
    = paged_response paginate_spec (mkRequest true (Some "-3"%string) 1)
        (mkDocument (Some R3) None [R1; R2; R3]) (-3).
Proof.
  apply (page_size_verbatim 100 paginate_spec
           (mkRequest true (Some "-3"%string) 1)
           (mkDocument (Some R3) None [R1; R2; R3]) "-3"%string (-3)).
  - by exists R3.
  - discriminate.
  - reflexivity.
  - reflexivity.
Defined.

Example page_size_zero : page_size 100 (PyStr "0") = 0.
Proof. reflexivity. Qed.

Example page_size_absent :
  page_size 100 (GET_get_limit (mkRequest true None 1)) = 10.
Proof. reflexivity. Qed.

(** ** The translation parent, with the pagination of the specification *)

Lemma last_drop_lt {A} (l : list A) m :
  (m < length l)%nat → last (drop m l) = last l.
Proof.
  intros Hm. rewrite !last_lookup, lookup_drop, length_drop.
  f_equal. lia.
Qed.

Lemma last_get_previous (l : list Revision) :
  last (get_previous l) = relink l <$> last l.
Proof. rewrite get_previous_relink. apply fmap_last. Qed.

Lemma based_on_relink l r : based_on (relink l r) = based_on r.
Proof. unfold relink. by destruct (find_previous r l 0). Qed.

(** The chronologically earliest revision is the last row of the query
    set. *)
Lemma earliest_revision document :
  revisions_of document ≠ [] →
  ∃ first,
    head (order_by_created_id (revisions_of document)) = Some first ∧
    last (qs_rows (all_revisions_of document)) = Some first ∧
    Forall (created_id_le first) (revisions_of document).
Proof.
  intros Hrevs.
  pose proof (merge_sort_Permutation created_id_le (revisions_of document))
    as Hperm.
  pose proof (StronglySorted_merge_sort created_id_le (revisions_of document))
    as Hsorted.
  rewrite rows_all_revisions, last_reverse. unfold order_by_created_id.
  destruct (merge_sort created_id_le (revisions_of document))
    as [|first sorted].
  - symmetry in Hperm. by apply Permutation_nil_r in Hperm.
  - exists first. split; [done |]. split; [done |].
    rewrite <- Hperm. apply StronglySorted_cons in Hsorted as [Hfirst _].
    constructor; [reflexivity | done].
Qed.

Lemma paginate_spec_Some request q per_page page :
  paginate_spec request q per_page = Some page →
  ∃ m, (m < length (qs_rows q))%nat ∧
       object_list page
       = mkQuerySet (take (Z.to_nat per_page) (drop m (qs_rows q)))
           (qs_transforms q) ∧
       (0 < Z.to_nat per_page)%nat ∧
       (has_next page = false →
        take (Z.to_nat per_page) (drop m (qs_rows q)) = drop m (qs_rows q)).
Proof.
  unfold paginate_spec.
  destruct (0 <? per_page) eqn:Hsize; simpl; [| discriminate].
  destruct (1 <=? GET_page request) eqn:Hn; simpl; [| discriminate].
  destruct ((GET_page request - 1) * per_page
            <? Z.of_nat (length (qs_rows q))) eqn:Hm; [| discriminate].
  intros [= <-]. simpl.
  apply Z.ltb_lt in Hsize, Hm. apply Z.leb_le in Hn.
  assert (GET_page request * per_page
          = (GET_page request - 1) * per_page + per_page) as Hsplit by ring.
  assert (0 ≤ (GET_page request - 1) * per_page) as Hpos by nia.
  rewrite Hsplit. revert Hm Hpos.
  generalize ((GET_page request - 1) * per_page). intros skipped Hm Hpos.
  exists (Z.to_nat skipped).
  split; [lia |]. split; [done |]. split; [lia |].
  intros Hnext. apply Z.ltb_ge in Hnext.
  apply take_ge. rewrite length_drop. lia.
Qed.

(** With the pagination of the specification the batch is never empty, a
    page is true, and on the last page the batch ends with the last row of
    the query set. *)
Lemma window_spec D request document page base :
  revisions_of document ≠ [] →
  window D paginate_spec request (GET_get_limit request)
    (all_revisions_of document) = Go (page, base) →
  ∃ slice, base = get_previous slice ∧ slice ≠ [] ∧
           no_next_page page = last_page_or_all page ∧
           (last_page_or_all page = true →
            last slice = last (qs_rows (all_revisions_of document))).
Proof.
  intros Hrevs. unfold window.
  destruct (is_all (GET_get_limit request)).
  - intros [= <- <-]. exists (qs_rows (all_revisions_of document)).
    split; [apply list_all_revisions |]. split; [| done].
    intros Hnil. apply qs_exists_all_revisions in Hrevs.
    unfold qs_exists in Hrevs. by rewrite Hnil in Hrevs.
  - destruct (paginate_spec request (all_revisions_of document)
                (page_size D (GET_get_limit request))) as [p|] eqn:Hp;
      [| discriminate].
    intros [= <- <-].
    apply paginate_spec_Some in Hp as (m & Hm & Hlist & Hsize & Hlast).
    set (rows := qs_rows (all_revisions_of document)) in *.
    set (k := Z.to_nat (page_size D (GET_get_limit request))) in *.
    assert (take k (drop m rows) ≠ []) as Hne.
    { intros Hnil. apply (f_equal length) in Hnil.
      rewrite length_take, length_drop in Hnil. simpl in Hnil. lia. }
    exists (take k (drop m rows)). rewrite Hlist.
    split; [done |]. split; [done |]. split.
    + unfold no_next_page, page_truth, last_page_or_all. rewrite Hlist.
      change (qs_list (mkQuerySet (take k (drop m rows))
                         (qs_transforms (all_revisions_of document))))
        with (get_previous (take k (drop m rows))).
      rewrite length_get_previous, bool_decide_eq_false_2; [done |].
      by destruct (take k (drop m rows)).
    + simpl. intros Hnext. apply negb_true_iff in Hnext.
      rewrite (Hlast Hnext). by apply last_drop_lt.
Qed.

(** Lines 195-200 on the windows of [window_spec]: the read of the last
    element succeeds, and what is appended is decided by the page, the
    parent and the earliest revision. *)
Lemma attach_parent_spec D request document page base :
  revisions_of document ≠ [] →
  window D paginate_spec request (GET_get_limit request)
    (all_revisions_of document) = Go (page, base) →
  ∃ first,
    head (order_by_created_id (revisions_of document)) = Some first ∧
    Forall (created_id_le first) (revisions_of document) ∧
    base ≠ [] ∧
    attach_parent document page base
    = Go (base ++ if last_page_or_all page && has_parent document
                  then option_list (based_on first) else []).
Proof.
  intros Hrevs Hwindow.
  destruct (earliest_revision document Hrevs)
    as (first & Hhead & Hlast & Hmin).
  exists first. split; [done |]. split; [done |].
  apply (window_spec D request document page base Hrevs) in Hwindow
    as (slice & -> & Hne & Hnext & Hslice).
  split.
  { intros Hnil. apply (f_equal length) in Hnil.
    rewrite length_get_previous in Hnil. by destruct slice. }
  unfold attach_parent, appends_parent. rewrite Hnext.
  change (match parent document with Some _ => true | None => false end)
    with (has_parent document).
  destruct (last_page_or_all page && has_parent document) eqn:Hcond;
    simpl; [| by rewrite app_nil_r].
  apply andb_true_iff in Hcond as [Hpage _].
  rewrite last_get_previous, (Hslice Hpage), Hlast. simpl.
  rewrite based_on_relink.
  destruct (based_on first); simpl; [done | by rewrite app_nil_r].
Qed.

(** C3: when line 195 is reached with a page (or none, in the all mode)
    and a batch, the response is the batch followed by the [based_on]
    revision, if there is one, of the chronologically earliest revision of
    the document, provided the page is the last one or the all mode was
    used and the document has a parent; in every other case the response
    is the batch alone.  No error is raised either way. *)
Theorem translation_parent_attached D request found document page base :
  before_attach D paginate_spec request found = Go (document, page, base) →
  ∃ first,
    head (order_by_created_id (revisions_of document)) = Some first ∧
    Forall (created_id_le first) (revisions_of document) ∧
    revisions D paginate_spec request found
    = RenderRevisions
        (base ++ if last_page_or_all page && has_parent document
                 then option_list (based_on first) else [])
        page.
Proof.
  intros Hbefore. unfold revisions. rewrite Hbefore. simpl.
  apply before_attach_Go in Hbefore as (_ & _ & _ & Hrevs & Hwindow).
  destruct (attach_parent_spec D request document page base Hrevs Hwindow)
    as (first & Hhead & Hmin & _ & ->).
  exists first. done.
Qed.

(** Scenario B, second page: the batch is [R1] and the revision it is
    based on follows it. *)
Lemma translation_parent_attached_witness :
  revision_data
    (revisions 100 paginate_spec (mkRequest false (Some "2"%string) 2)
       (Some docB))
  = [R1'; F1].
Proof.
  destruct (translation_parent_attached 100
              (mkRequest false (Some "2"%string) 2) (Some docB) docB
              (Some (mkPage (mkQuerySet [R1'] [get_previous]) 2 false))
              [R1'] eq_refl) as (first & Hfirst & _ & ->).
  vm_compute in Hfirst. injection Hfirst as <-. reflexivity.
Defined.

(** C10: whenever the branch on line 195 is taken, the batch whose last
    element it reads is not empty, so the read succeeds and the view does
    not end in an [IndexError]. *)
Theorem attach_reads_nonempty_batch D request found document page batch :
  before_attach D paginate_spec request found = Go (document, page, batch) →
  appends_parent document page = true →
  batch ≠ [] ∧ is_Some (last batch)
  ∧ revisions D paginate_spec request found ≠ IndexError.
Proof.
  intros Hbefore Hbranch. unfold revisions. rewrite Hbefore. simpl.
  apply before_attach_Go in Hbefore as (_ & _ & _ & Hrevs & Hwindow).
  destruct (attach_parent_spec D request document page batch Hrevs Hwindow)
    as (first & _ & _ & Hbatch & ->).
  split; [done |]. split; [by apply last_is_Some | done].
Qed.

Lemma attach_reads_nonempty_batch_witness :
  [R1'] ≠ [] ∧ is_Some (last [R1'])
  ∧ revisions 100 paginate_spec (mkRequest false (Some "2"%string) 2)
      (Some docB) ≠ IndexError.
Proof.
  apply (attach_reads_nonempty_batch 100
           (mkRequest false (Some "2"%string) 2) (Some docB) docB
           (Some (mkPage (mkQuerySet [R1'] [get_previous]) 2 false)) [R1']).
  - reflexivity.
  - reflexivity.
Defined.

(** ** Further properties of the linker *)

(** X1: the linker keeps the list as it is but for the links: the length,
    and at every position the pk, the creation time, the approval flag and
    [based_on], are those of the input. *)
Theorem get_previous_preserves_rows (revs : list Revision) :
  length (get_previous revs) = length revs ∧
  ∀ i r, revs !! i = Some r →
    ∃ r', get_previous revs !! i = Some r' ∧
          pk r' = pk r ∧ created r' = created r ∧
          is_approved r' = is_approved r ∧ based_on r' = based_on r.
Proof.
  split; [apply length_get_previous |].
  intros i r Hr. rewrite get_previous_relink, list_lookup_fmap, Hr. simpl.
  exists (relink revs r). split; [done |].
  pose proof (row_relink revs r) as Hrow. unfold row in Hrow.
  by injection Hrow as -> -> -> ->.
Qed.

(** X2: when no revision of the list is approved the linker assigns no
    link at all: it returns the list unchanged. *)
Theorem get_previous_no_approved (revs : list Revision) :
  Forall (λ r, is_approved r = false) revs →
  get_previous revs = revs.
Proof.
  intros Hnone. rewrite get_previous_relink.
  rewrite <- (list_fmap_id revs) at 3. apply list_fmap_ext.
  intros i r _. simpl. unfold relink.
  assert (find_previous r revs 0 = None) as ->; [| done].
  apply find_previous_None. intros q Hq.
  rewrite Forall_forall in Hnone. unfold is_candidate.
  by rewrite (Hnone q Hq).
Qed.

Lemma get_previous_no_approved_witness :
  get_previous [R2; mkRevision 5 1 false None None]
  = [R2; mkRevision 5 1 false None None].
Proof.
  apply (get_previous_no_approved [R2; mkRevision 5 1 false None None]).
  repeat constructor.
Defined.

(** X3: a revision that no revision of the list precedes in time is left
    as it is, whatever is approved. *)
Theorem get_previous_earliest_unlinked (revs : list Revision) i r :
  revs !! i = Some r →
  (∀ q, q ∈ revs → created r ≤ created q) →
  get_previous revs !! i = Some r.
Proof.
  intros Hr Hmin. rewrite get_previous_relink, list_lookup_fmap, Hr. simpl.
  f_equal. unfold relink.
  assert (find_previous r revs 0 = None) as ->; [| done].
  apply find_previous_None. intros q Hq. unfold is_candidate.
  specialize (Hmin q Hq).
  assert ((created q <? created r) = false) as -> by (apply Z.ltb_ge; lia).
  apply andb_false_r.
Qed.

Lemma get_previous_earliest_unlinked_witness :
  get_previous [R3; R2; R1] !! 2%nat = Some R1.
Proof.
  apply (get_previous_earliest_unlinked [R3; R2; R1] 2 R1 eq_refl).
  intros q Hq.
  repeat (apply elem_of_cons in Hq as [-> | Hq]); simpl; try lia.
  by apply elem_of_nil in Hq.
Defined.

(** X4: whether the inner loop finds a predecessor for a revision does
    not depend on the order of the list; only which one it finds does. *)
Theorem find_previous_order_independent (revs revs' : list Revision) r :
  revs ≡ₚ revs' →
  (is_Some (find_previous r revs 0) ↔ is_Some (find_previous r revs' 0)).
Proof.
  intros Hperm.
  assert (∀ l l' : list Revision, l ≡ₚ l' →
            find_previous r l 0 = None → find_previous r l' 0 = None) as Hnone.
  { intros l l' Hl. rewrite !find_previous_None. intros H q Hq.
    apply H. by rewrite Hl. }
  rewrite <- !not_eq_None_Some. split; intros H Habs; apply H.
  - by apply (Hnone revs' revs).
  - by apply (Hnone revs revs').
Qed.

Lemma find_previous_order_independent_witness :
  is_Some (find_previous R3 [R3; R2; R1] 0)
  ↔ is_Some (find_previous R3 [R1; R3; R2] 0).
Proof.
  apply (find_previous_order_independent [R3; R2; R1] [R1; R3; R2] R3).
  apply perm_trans with [R3; R1; R2]; [apply perm_skip, perm_swap |].
  apply perm_swap.
Defined.

(** A link set on freshly fetched revisions leads to a member of the
    list, approved and created strictly earlier. *)
Lemma previous_of_fresh (revs : list Revision) r p :
  Forall (λ r0, previous_revision r0 = None) revs →
  r ∈ get_previous revs →
  previous_of (get_previous revs) r = Some p →
  p ∈ get_previous revs ∧ is_approved p = true ∧ created p < created r.
Proof.
  intros Hfresh Hr Hp. unfold previous_of in Hp.
  rewrite get_previous_relink in *.
  apply list_elem_of_fmap in Hr as (r0 & -> & Hr0).
  unfold relink in Hp |- *.
  destruct (find_previous r0 revs 0) as [j|] eqn:Hfind.
  - simpl in Hp.
    apply find_previous_Some in Hfind as (k & q & -> & Hq & Hcand & _).
    simpl in Hp. rewrite list_lookup_fmap, Hq in Hp. injection Hp as <-.
    apply is_candidate_true in Hcand as (Happ & _ & Hlt).
    pose proof (row_relink revs q) as Hrow. unfold row in Hrow.
    injection Hrow as _ Hc Ha _. fold (relink revs q).
    rewrite Hc, Ha. split; [| done].
    apply list_elem_of_fmap. exists q. split; [done |].
    by eapply list_elem_of_lookup_2.
  - rewrite Forall_forall in Hfresh. by rewrite (Hfresh r0 Hr0) in Hp.
Qed.

(** X5: links lead strictly back in time: following one or more links
    from a revision of a freshly linked list ends at a member of the list
    created strictly earlier, so no chain of links comes back to where it
    started. *)
Theorem nth_previous_earlier (revs : list Revision) n r p :
  Forall (λ r0, previous_revision r0 = None) revs →
  r ∈ get_previous revs →
  nth_previous (get_previous revs) (S n) r = Some p →
  p ∈ get_previous revs ∧ created p < created r ∧ p ≠ r.
Proof.
  intros Hfresh. revert r.
  induction n as [|n IH]; intros r Hr Hp; simpl in Hp.
  - destruct (previous_of (get_previous revs) r) as [q|] eqn:Hq;
      [| discriminate].
    injection Hp as ->.
    destruct (previous_of_fresh revs r p Hfresh Hr Hq) as (Hin & _ & Hlt).
    split; [done |]. split; [done |]. intros ->. lia.
  - destruct (previous_of (get_previous revs) r) as [q|] eqn:Hq;
      [| discriminate].
    destruct (previous_of_fresh revs r q Hfresh Hr Hq) as (Hin & _ & Hlt).
    destruct (IH q Hin Hp) as (Hp' & Hlt' & _).
    split; [done |]. split; [lia |]. intros ->. lia.
Qed.

Lemma nth_previous_earlier_witness :
  R1 ∈ get_previous [R3; R2_approved; R1] ∧ created R1 < 3.
Proof.
  destruct (nth_previous_earlier [R3; R2_approved; R1] 1
              (set_previous_revision R3 1) R1) as (Hin & Hlt & _).
  - repeat constructor.
  - apply list_elem_of_lookup. by exists 0%nat.
  - reflexivity.
  - split; [exact Hin | exact Hlt].
Defined.

(** X6: in the list the view hands out in the all mode, latest first,
    every link points further down the list, to an older entry. *)
Theorem links_point_down (document : Document) i j r :
  Forall (λ r0, previous_revision r0 = None) (revisions_of document) →
  qs_list (all_revisions_of document) !! i = Some r →
  previous_revision r = Some j →
  (i < j < length (revisions_of document))%nat.
Proof.
  intros Hfresh Hr Hj.
  set (rows := qs_rows (all_revisions_of document)).
  assert (Forall (λ r0, previous_revision r0 = None) rows) as Hfresh'
    by (unfold rows; by rewrite rows_Permutation).
  rewrite list_all_revisions, get_previous_relink, list_lookup_fmap in Hr.
  fold rows in Hr.
  destruct (rows !! i) as [r0|] eqn:Hr0; simpl in Hr; [| discriminate].
  injection Hr as <-. unfold relink in Hj.
  destruct (find_previous r0 rows 0) as [j'|] eqn:Hfind.
  - simpl in Hj. injection Hj as ->.
    apply find_previous_Some in Hfind as (k & p & -> & Hp & Hcand & _).
    simpl. apply is_candidate_true in Hcand as (_ & _ & Hlt).
    split.
    + destruct (decide (i < k)%nat) as [|Hge]; [done |].
      pose proof (StronglySorted_lookup_le (flip created_id_le) rows
                    k i p r0 (rows_descending document) ltac:(lia) Hp Hr0)
        as Hle.
      unfold flip, created_id_le in Hle. lia.
    + apply lookup_lt_Some in Hp.
      by rewrite <- (Permutation_length (rows_Permutation document)).
  - rewrite Forall_forall in Hfresh'.
    rewrite (Hfresh' r0) in Hj; [discriminate |].
    by eapply list_elem_of_lookup_2.
Qed.

Lemma links_point_down_witness :
  (0 < 1 < length (revisions_of
                     (mkDocument (Some R3) None [R1; R2_approved; R3])))%nat.
Proof.
  apply (links_point_down (mkDocument (Some R3) None [R1; R2_approved; R3])
           0 1 (set_previous_revision R3 1)).
  - repeat constructor.
  - reflexivity.
  - reflexivity.
Defined.

(** ** Further properties of the view *)

(** The view as one cascade of its guards. *)
Lemma revisions_cascade D P request found :
  revisions D P request found =
  match found with
  | None => Http404
  | Some document =>
      match current_revision document with
      | None => Http404
      | Some _ =>
          if negb (is_authenticated request) && is_all (GET_get_limit request)
          then Render403 "revisions_login_required"
          else if negb (qs_exists (all_revisions_of document)) then Http404
          else if is_all (GET_get_limit request)
          then finish (all_revisions ← attach_parent document None
                                        (qs_list (all_revisions_of document));
                       Go (RenderRevisions all_revisions None))
          else paged_response P request document
                 (page_size D (GET_get_limit request))
      end
  end.
Proof.
  unfold revisions, before_attach, get_document, login_gate, fetch, window,
    paged_response.
  destruct found as [d|]; simpl; [| done].
  destruct (current_revision d); simpl; [| done].
  destruct (negb (is_authenticated request) && is_all (GET_get_limit request));
    simpl; [done |].
  destruct (qs_exists (all_revisions_of d)); simpl; [| done].
  destruct (is_all (GET_get_limit request)); simpl; [done |].
  by destruct (P request (all_revisions_of d)
                 (page_size D (GET_get_limit request))).
Qed.

(** Lines 195-207 end in the rendered list or, when the last element of
    an empty list is read, in [IndexError]. *)
Lemma attach_outcome document page batch :
  let response :=
    finish (all_revisions ← attach_parent document page batch;
            Go (RenderRevisions all_revisions page)) in
  (response = IndexError ∧ batch = [] ∧ appends_parent document page = true)
  ∨ (∃ all_revisions, response = RenderRevisions all_revisions page ∧
       (batch ≠ [] ∨ appends_parent document page = false)).
Proof.
  unfold attach_parent.
  destruct (appends_parent document page) eqn:Hbranch; simpl;
    [| right; eauto].
  destruct batch as [|r batch] using rev_ind; simpl.
  - by left.
  - right. rewrite last_snoc.
    assert (batch ++ [r] ≠ []) by (by destruct batch).
    destruct (based_on r); simpl; eauto.
Qed.

Lemma paged_response_outcome P request document size :
  paged_response P request document size = PaginateError
  ∨ paged_response P request document size = IndexError
  ∨ ∃ all_revisions page,
      paged_response P request document size
      = RenderRevisions all_revisions (Some page).
Proof.
  unfold paged_response.
  destruct (P request (all_revisions_of document) size) as [page|];
    [| by left].
  right.
  destruct (attach_outcome document (Some page) (qs_list (object_list page)))
    as [(-> & _) | (all & -> & _)]; eauto.
Qed.

(** X7: the 403 page is given in one case only: the document exists and
    has a current revision, the caller is not logged in and asks for all
    revisions; the reason is then [revisions_login_required].  A caller who
    is logged in never gets it. *)
Theorem forbidden_iff D P request found reason :
  revisions D P request found = Render403 reason ↔
  (∃ document, found = Some document ∧ is_Some (current_revision document))
  ∧ is_authenticated request = false
  ∧ GET_limit request = Some "all"%string
  ∧ reason = "revisions_login_required"%string.
Proof.
  rewrite <- is_all_limit, revisions_cascade. split.
  - destruct found as [d|]; [| done].
    destruct (current_revision d) as [c|] eqn:Hc; [| done].
    destruct (is_authenticated request), (is_all (GET_get_limit request));
      simpl.
    4: destruct (qs_exists (all_revisions_of d)); simpl; [| done];
       destruct (paged_response_outcome P request d
                   (page_size D (GET_get_limit request)))
         as [-> | [-> | (a & pg & ->)]]; done.
    3: { intros [= <-]. split; [| done]. exists d. by rewrite Hc. }
    1: destruct (qs_exists (all_revisions_of d)); simpl; [| done];
       destruct (attach_outcome d None (qs_list (all_revisions_of d)))
         as [(-> & _) | (a & -> & _)]; done.
    destruct (qs_exists (all_revisions_of d)); simpl; [| done].
    destruct (paged_response_outcome P request d
                (page_size D (GET_get_limit request)))
      as [-> | [-> | (a & pg & ->)]]; done.
  - intros ((d & -> & [c Hc]) & Hauth & Hall & ->).
    by rewrite Hc, Hauth, Hall.
Qed.

(** X8: a request for all revisions never reaches [paginate] nor the
    default page size: the response is the same whatever they are. *)
Theorem all_mode_ignores_paginate D D' P P' request found :
  GET_limit request = Some "all"%string →
  revisions D P request found = revisions D' P' request found.
Proof.
  intros Hall. apply is_all_limit in Hall.
  rewrite !revisions_cascade, Hall. done.
Qed.

Lemma all_mode_ignores_paginate_witness :
  revisions 100 paginate_spec (mkRequest true (Some "all"%string) 1)
    (Some docB)
  = revisions 5 (λ _ _ _, None) (mkRequest true (Some "all"%string) 1)
      (Some docB).
Proof.
  by apply (all_mode_ignores_paginate 100 5 paginate_spec (λ _ _ _, None)
              (mkRequest true (Some "all"%string) 1) (Some docB)).
Defined.




(** X10: the view ends in [IndexError] in one case only: a page is asked
    for, [paginate] returns a page that holds no revision, and the
    document has a parent; line 197 then reads the last element of an
    empty list. *)
Theorem index_error_iff D P request document :
  revisions D P request (Some document) = IndexError ↔
  is_Some (current_revision document) ∧
  revisions_of document ≠ [] ∧
  GET_limit request ≠ Some "all"%string ∧
  is_Some (parent document) ∧
  ∃ page, P request (all_revisions_of document)
            (page_size D (GET_get_limit request)) = Some page ∧
          qs_list (object_list page) = [].
Proof.
  rewrite <- is_all_limit, not_true_iff_false, <- qs_exists_all_revisions.
  rewrite revisions_cascade. split.
  - destruct (current_revision document) as [c|]; [| done].
    destruct (negb (is_authenticated request)
              && is_all (GET_get_limit request)); [done |].
    destruct (qs_exists (all_revisions_of document)) eqn:Hex; [| done].
    simpl. destruct (is_all (GET_get_limit request)).
    + destruct (attach_outcome document None
                  (qs_list (all_revisions_of document)))
        as [(_ & Hnil & _) | (a & -> & _)]; [| done].
      rewrite list_all_revisions in Hnil. apply (f_equal length) in Hnil.
      rewrite length_get_previous in Hnil. unfold qs_exists in Hex.
      by destruct (qs_rows (all_revisions_of document)).
    + unfold paged_response.
      destruct (P request (all_revisions_of document)
                  (page_size D (GET_get_limit request))) as [page|]; [| done].
      destruct (attach_outcome document (Some page)
                  (qs_list (object_list page)))
        as [(_ & Hnil & Hbranch) | (a & -> & _)]; [| done].
      intros _. split; [done |]. split; [done |]. split; [done |].
      split; [| by exists page].
      unfold appends_parent in Hbranch. apply andb_true_iff in Hbranch as [_ H].
      by destruct (parent document).
  - intros ([c ->] & -> & -> & [par Hpar] & page & Hpage & Hnil).
    rewrite andb_false_r. simpl. unfold paged_response. rewrite Hpage.
    unfold attach_parent, appends_parent, no_next_page, page_truth.
    rewrite Hnil, Hpar. done.
Qed.

(** ** The listing views *)

Section ListViewFacts.
Context {PageOfDocuments : Type}.
Variable DOCUMENTS_PER_PAGE : Z.
Variable paginate_documents : ListRequest → list Document → Z → PageOfDocuments.
Variable iexact exact : string → string → bool.
Variable lower : string → string.
Variable filter_for_list filter_for_review filter_with_localization_tag :
  string → option Tag → list Document.

Lemma tag_given_Some tag s :
  tag_given tag = Some s ↔ tag = Some s ∧ s ≠ EmptyString.
Proof.
  unfold tag_given. destruct tag as [s'|].
  - case_bool_decide as Hs'.
    + split; [done | intros [[= ->] Hs]; done].
    + split; [intros [= ->]; done | by intros [-> _]].
  - split; [done | by intros [? _]].
Qed.

Lemma get_list_or_404_None objects tag :
  get_list_or_404 iexact objects tag = None ↔
  ∀ t, t ∈ objects → iexact (name t) tag = false.
Proof.
  unfold get_list_or_404.
  destruct (filter (λ t, iexact (name t) tag = true) objects)
    as [|t0 l] eqn:Hfilter.
  - split; [intros _ t Ht | done].
    apply not_true_iff_false. intros Hmatch.
    assert (t ∈ filter (λ t, iexact (name t) tag = true) objects) as Hin
      by (by apply list_elem_of_filter).
    rewrite Hfilter in Hin. by apply elem_of_nil in Hin.
  - split; [done |]. intros Hnone.
    assert (t0 ∈ filter (λ t, iexact (name t) tag = true) objects) as Hin
      by (rewrite Hfilter; left).
    apply list_elem_of_filter in Hin as [Hmatch Hin].
    rewrite (Hnone t0 Hin) in Hmatch. discriminate.
Qed.

Lemma get_list_or_404_Some objects tag matching_tags :
  get_list_or_404 iexact objects tag = Some matching_tags →
  matching_tags = filter (λ t, iexact (name t) tag = true) objects.
Proof.
  unfold get_list_or_404.
  destruct (filter (λ t, iexact (name t) tag = true) objects);
    [discriminate | by intros [= <-]].
Qed.

(** X11: the documents listing raises [Http404] exactly when a non-empty
    tag is asked for and the database finds no [DocumentTag] whose name is
    that tag up to case; without a tag, or with the empty tag, it never
    does. *)
Theorem documents_not_found_iff objects request tag :
  documents DOCUMENTS_PER_PAGE paginate_documents iexact lower
    filter_for_list objects request tag = ListHttp404 ↔
  ∃ s, tag = Some s ∧ s ≠ EmptyString ∧
       ∀ t, t ∈ objects → iexact (name t) s = false.
Proof.
  unfold documents.
  destruct (tag_given tag) as [s|] eqn:Htag.
  - apply tag_given_Some in Htag as [-> Hs].
    destruct (get_list_or_404 iexact objects s) as [l|] eqn:Hlist.
    + split; [done |]. intros (s' & [= <-] & _ & Hnone).
      apply get_list_or_404_None in Hnone. congruence.
    + rewrite get_list_or_404_None in Hlist. split; [eauto | done].
  - split; [done |]. intros (s & -> & Hs & _).
    assert (tag_given (Some s) = Some s) as Hgiven
      by (by apply tag_given_Some).
    congruence.
Qed.

Lemma first_matching_tag_app before t after tag :
  (∀ t', t' ∈ before → lower (name t') ≠ lower tag) →
  lower (name t) = lower tag →
  first_matching_tag lower (before ++ t :: after) tag = Some t.
Proof.
  intros Hbefore Ht. induction before as [|b before IH]; simpl.
  - by rewrite bool_decide_eq_true_2.
  - rewrite bool_decide_eq_false_2 by (apply Hbefore; left).
    apply IH. intros t' Ht'. apply Hbefore. by right.
Qed.

Lemma first_matching_tag_None matching_tags tag :
  first_matching_tag lower matching_tags tag = None ↔
  ∀ t, t ∈ matching_tags → lower (name t) ≠ lower tag.
Proof.
  induction matching_tags as [|b l IH]; simpl.
  - split; [intros _ t Ht; by apply elem_of_nil in Ht | done].
  - case_bool_decide as Hb.
    + split; [done |]. intros H. by specialize (H b ltac:(left)).
    + rewrite IH. split.
      * intros H t [-> | Ht]%elem_of_cons; auto.
      * intros H t Ht. apply H. by right.
Qed.

(** X12: the first tag wins: when the rows of [DocumentTag] are
    [before ++ t :: after], [t] matches the tag both for the database and
    after lowering, and no row of [before] does both, the documents are
    those filtered by [t], and the count is their number. *)
Theorem documents_first_match objects request s before t after :
  s ≠ EmptyString →
  objects = before ++ t :: after →
  iexact (name t) s = true →
  lower (name t) = lower s →
  (∀ t', t' ∈ before →
         iexact (name t') s = true → lower (name t') ≠ lower s) →
  documents DOCUMENTS_PER_PAGE paginate_documents iexact lower
    filter_for_list objects request (Some s)
  = RenderDocuments
      (paginate_documents request
         (filter_for_list (LANGUAGE_CODE request) (Some t))
         DOCUMENTS_PER_PAGE)
      (length (filter_for_list (LANGUAGE_CODE request) (Some t)))
      (Some s).
Proof.
  intros Hs -> Hdb Hlower Hbefore. unfold documents.
  rewrite (proj2 (tag_given_Some (Some s) s) (conj eq_refl Hs)).
  unfold get_list_or_404. rewrite filter_app, filter_cons_True by done.
  assert (first_matching_tag lower
            (filter (λ t0, iexact (name t0) s = true) before
             ++ t :: filter (λ t0, iexact (name t0) s = true) after) s
          = Some t) as Hfirst.
  { apply first_matching_tag_app; [| done].
    intros t' [Hm Hin]%list_elem_of_filter. by apply Hbefore. }
  destruct (filter (λ t0, iexact (name t0) s = true) before ++ _)
    eqn:Hl; [by destruct (filter _ before) |].
  by rewrite Hfirst.
Qed.

(** X13: when the database finds tags for a non-empty tag but none of
    them has the tag as its name after lowering, there is no [Http404]:
    the listing is the one without a tag filter, shown under the tag that
    was asked for. *)
Theorem documents_unfiltered_on_mismatch objects request s :
  s ≠ EmptyString →
  (∃ t, t ∈ objects ∧ iexact (name t) s = true) →
  (∀ t, t ∈ objects → iexact (name t) s = true →
        lower (name t) ≠ lower s) →
  documents DOCUMENTS_PER_PAGE paginate_documents iexact lower
    filter_for_list objects request (Some s)
  = RenderDocuments
      (paginate_documents request
         (filter_for_list (LANGUAGE_CODE request) None) DOCUMENTS_PER_PAGE)
      (length (filter_for_list (LANGUAGE_CODE request) None))
      (Some s).
Proof.
  intros Hs (t & Ht & Hdb) Hmismatch. unfold documents.
  rewrite (proj2 (tag_given_Some (Some s) s) (conj eq_refl Hs)).
  destruct (get_list_or_404 iexact objects s) as [l|] eqn:Hlist.
  - apply get_list_or_404_Some in Hlist as ->.
    assert (first_matching_tag lower
              (filter (λ t0, iexact (name t0) s = true) objects) s = None)
      as ->; [| done].
    apply first_matching_tag_None.
    intros t' [Hm Hin]%list_elem_of_filter. by apply Hmismatch.
  - rewrite get_list_or_404_None in Hlist. rewrite (Hlist t Ht) in Hdb.
    discriminate.
Qed.

Lemma filter_exact_nil objects s :
  filter (λ t0, exact (name t0) s = true) objects = [] ↔
  ∀ t, t ∈ objects → exact (name t) s = false.
Proof.
  split.
  - intros Hfilter t Ht. apply not_true_iff_false. intros Hm.
    assert (t ∈ filter (λ t0, exact (name t0) s = true) objects) as Hin
      by (by apply list_elem_of_filter).
    rewrite Hfilter in Hin. by apply elem_of_nil in Hin.
  - intros Hnone.
    destruct (filter (λ t0, exact (name t0) s = true) objects)
      as [|t0 l] eqn:Hfilter; [done |].
    assert (t0 ∈ filter (λ t0, exact (name t0) s = true) objects) as Hin
      by (rewrite Hfilter; left).
    apply list_elem_of_filter in Hin as [Hm Hin].
    rewrite (Hnone t0 Hin) in Hm. discriminate.
Qed.

(** [get_object_or_404] by the number of rows the database finds. *)
Lemma get_object_or_404_cases objects s :
  (get_object_or_404 (PageOfDocuments := PageOfDocuments) exact objects s
   = inl ListHttp404 ↔
   ∀ t, t ∈ objects → exact (name t) s = false)
  ∧ (∀ t, filter (λ t0, exact (name t0) s = true) objects = [t] →
          get_object_or_404 (PageOfDocuments := PageOfDocuments)
            exact objects s = inr t).
Proof.
  unfold get_object_or_404. rewrite <- filter_exact_nil. split.
  - by destruct (filter (λ t0, exact (name t0) s = true) objects)
      as [|t0 [|t1 l]].
  - by intros t ->.
Qed.

Ltac tagged_listing_cases :=
  match goal with
  | |- context [get_object_or_404 ?ex ?objects _] =>
      match goal with
      | |- context [tag_given ?tag] =>
          split; [| split];
          [ destruct (tag_given tag) as [s|] eqn:Htag;
            [ apply tag_given_Some in Htag as [-> Hs];
              destruct (get_object_or_404_cases objects s) as [H404 _];
              destruct (get_object_or_404 ex objects s) as [raised|t] eqn:Hget;
              [ split;
                [ intros ->; exists s; repeat split; try done; by apply H404
                | intros (s' & [= <-] & _ & Hnone); apply H404 in Hnone;
                  congruence ]
              | split; [done |];
                intros (s' & [= <-] & _ & Hnone); apply H404 in Hnone;
                congruence ]
            | split; [done |]; intros (s & -> & Hs & _);
              assert (tag_given (Some s) = Some s) as Hgiven
                by (by apply tag_given_Some);
              congruence ]
          | by intros ->
          | intros s t -> Hone;
            by rewrite (proj2 (get_object_or_404_cases objects s) t Hone) ]
      end
  end.

(** X14: the listing by review tag raises [Http404] exactly when a
    non-empty tag is asked for and the database finds no [ReviewTag] of
    that name; without a tag the listing is not filtered and no tag is
    looked up; with exactly one tag of that name the listing is filtered
    by it and shows the tag as it was asked for. *)
Theorem needs_review_cases objects request tag :
  let response :=
    needs_review DOCUMENTS_PER_PAGE paginate_documents exact
      filter_for_review objects request tag in
  let render tag_obj :=
    RenderTagged "wiki/list/needs_review.html"
      (paginate_documents request
         (filter_for_review (LANGUAGE_CODE request) tag_obj)
         DOCUMENTS_PER_PAGE)
      (length (filter_for_review (LANGUAGE_CODE request) tag_obj))
      tag_obj tag in
  (response = ListHttp404 ↔
   ∃ s, tag = Some s ∧ s ≠ EmptyString ∧
        ∀ t, t ∈ objects → exact (name t) s = false)
  ∧ (tag_given tag = None → response = render None)
  ∧ (∀ s t, tag_given tag = Some s →
       filter (λ t0, exact (name t0) s = true) objects = [t] →
       response = render (Some t)).
Proof.
  intros response render. unfold response, render, needs_review.
  tagged_listing_cases.
Qed.

(** X15: the listing by localization tag raises [Http404] exactly when a
    non-empty tag is asked for and the database finds no
    [LocalizationTag] of that name; without a tag the listing is not
    filtered; with exactly one tag of that name the listing is filtered by
    it. *)
Theorem with_localization_tag_cases objects request tag :
  let response :=
    with_localization_tag DOCUMENTS_PER_PAGE paginate_documents exact
      filter_with_localization_tag objects request tag in
  let render tag_obj :=
    RenderTagged "wiki/list/with_localization_tags.html"
      (paginate_documents request
         (filter_with_localization_tag (LANGUAGE_CODE request) tag_obj)
         DOCUMENTS_PER_PAGE)
      (length (filter_with_localization_tag (LANGUAGE_CODE request) tag_obj))
      tag_obj tag in
  (response = ListHttp404 ↔
   ∃ s, tag = Some s ∧ s ≠ EmptyString ∧
        ∀ t, t ∈ objects → exact (name t) s = false)
  ∧ (tag_given tag = None → response = render None)
  ∧ (∀ s t, tag_given tag = Some s →
       filter (λ t0, exact (name t0) s = true) objects = [t] →
       response = render (Some t)).
Proof.
  intros response render. unfold response, render, with_localization_tag.
  tagged_listing_cases.
Qed.
End ListViewFacts.

Lemma documents_first_match_witness :
  documents 100 (λ _ docs _, docs) pad_space_iexact ascii_lower
    (λ _ tag_obj, match tag_obj with Some _ => [docP] | None => [docP; docB] end)
    [mkTag 1 "HTML"; mkTag 2 "Css"; mkTag 3 "css"]
    (mkListRequest "en-US" 1) (Some "CSS"%string)
  = RenderDocuments [docP] 1 (Some "CSS"%string).
Proof.
  apply (documents_first_match 100 (λ _ docs _, docs) pad_space_iexact
           ascii_lower
           (λ _ tag_obj, match tag_obj with
                         | Some _ => [docP] | None => [docP; docB] end)
           [mkTag 1 "HTML"; mkTag 2 "Css"; mkTag 3 "css"]
           (mkListRequest "en-US" 1) "CSS"%string
           [mkTag 1 "HTML"] (mkTag 2 "Css") [mkTag 3 "css"]).
  - discriminate.
  - reflexivity.
  - reflexivity.
  - reflexivity.
  - intros t' Ht'. apply list_elem_of_singleton in Ht' as ->. discriminate.
Defined.

Lemma documents_unfiltered_on_mismatch_witness :
  documents 100 (λ _ docs _, docs) pad_space_iexact ascii_lower
    (λ _ tag_obj, match tag_obj with Some _ => [docP] | None => [docP; docB] end)
    [mkTag 1 "HTML"; mkTag 2 "css"]
    (mkListRequest "en-US" 1) (Some "css "%string)
  = RenderDocuments [docP; docB] 2 (Some "css "%string).
Proof.
  apply (documents_unfiltered_on_mismatch 100 (λ _ docs _, docs)
           pad_space_iexact ascii_lower
           (λ _ tag_obj, match tag_obj with
                         | Some _ => [docP] | None => [docP; docB] end)
           [mkTag 1 "HTML"; mkTag 2 "css"]
           (mkListRequest "en-US" 1) "css "%string).
  - discriminate.
  - exists (mkTag 2 "css"). split; [| reflexivity]. right. left.
  - intros t Ht.
    repeat (apply elem_of_cons in Ht as [-> | Ht]);
      [discriminate | intros _; discriminate | by apply elem_of_nil in Ht].
Defined.

Example needs_review_unknown_tag :
  needs_review 100 (λ _ docs _, docs) pad_space_exact (λ _ _, [docB])
    [mkTag 1 "technical"; mkTag 2 "editorial"]
    (mkListRequest "en-US" 1) (Some "kumascript"%string)
  = ListHttp404.
Proof. reflexivity. Qed.

Example needs_review_without_tag :
  needs_review 100 (λ _ docs _, docs) pad_space_exact
    (λ _ tag_obj, match tag_obj with Some _ => [] | None => [docB] end)
    [mkTag 1 "technical"; mkTag 2 "editorial"]
    (mkListRequest "en-US" 1) (Some EmptyString)
  = RenderTagged "wiki/list/needs_review.html" [docB] 1 None
      (Some EmptyString).
Proof. reflexivity. Qed.
